(** * The SE3 manifold metric of HyperVariables

    A shallow embedding of [hyper::metrics::ManifoldMetric<variables::SE3<TScalar>>]
    (the metric header of the repository) and the properties its
    specification states about it.

    The metric reads two poses through raw scalar pointers, chains the three
    group primitives [gInv], [gPlus] and [gLog], and writes the tangent vector
    and the requested Jacobians through raw pointers again.  The embedding
    keeps that shape: caller memory is a map from addresses to scalars, a
    pointer is an address with [nullptr = 0], and the metric is a state
    transformer over the memory together with the log of the primitive calls
    it has issued (which derivative destinations were supplied, which
    convention flags were passed).

    The primitives themselves, the dense product and the two build constants
    are not defined in the metric header; the metric is parametric in them. *)

From Stdlib Require Import ZArith Lia List.
From stdpp Require Import base list vector.

Local Open Scope Z_scope.

(** ** Raw memory *)

Definition ptr : Type := Z.

Definition nullptr : ptr := 0.

(** The contextual conversion of a pointer to [bool], as in [if (J_lhs)]. *)
Definition is_set (p : ptr) : bool := negb (p =? nullptr).

(** Two buffers, [n] scalars at [p] and [k] scalars at [q], that share no
    address. *)
Definition separated (p : ptr) (n : nat) (q : ptr) (k : nat) : Prop :=
  p + Z.of_nat n <= q ∨ q + Z.of_nat k <= p.

Section Memory.
Context {Scalar : Type}.

Definition memory : Type := Z → Scalar.

(** [Eigen::Map<const T>{p}] read out: the [n] scalars starting at [p]. *)
Definition load (n : nat) (m : memory) (p : ptr) : vec Scalar n :=
  fun_to_vec (λ i : fin n, m (p + Z.of_nat (fin_to_nat i))).

(** [Eigen::Map<T>{p} = v]: the [n] scalars of [v] written from [p] on. *)
Definition store {n : nat} (p : ptr) (v : vec Scalar n) (m : memory) : memory :=
  λ a, if bool_decide (p <= a < p + Z.of_nat n)
       then default (m a) (vec_to_list v !! Z.to_nat (a - p))
       else m a.

End Memory.

Arguments memory : clear implicits.

(** ** The fixed-size types *)

(** Modelled from the spec: [variables::SE3<TScalar>::kNumParameters] is
    declared in the groups header, which the metric header only includes;
    the spec gives the parameter count of a pose as 7 (translation plus
    quaternion). *)
Definition Input_kNumParameters : nat := 7.

(** Modelled from the spec: [variables::Tangent<SE3<TScalar>>::kNumParameters]
    is declared in the groups header as well; the spec fixes the tangent
    dimension to 6. *)
Definition Output_kNumParameters : nat := 6.

(** [JacobianNM<Output>] is square in the tangent dimension; a value of the
    type is its [data()] array in the storage order of the build. *)
Definition Jacobian_kNumParameters : nat :=
  (Output_kNumParameters * Output_kNumParameters)%nat.

Definition Input (Scalar : Type) : Type := vec Scalar Input_kNumParameters.

Definition Output (Scalar : Type) : Type := vec Scalar Output_kNumParameters.

Definition Jacobian (Scalar : Type) : Type := vec Scalar Jacobian_kNumParameters.

(** ** Primitive calls *)

(** One entry per call of a group primitive: whether a destination was
    supplied for each derivative the primitive offers, and the convention
    flags of the call. *)
Inductive Call : Type :=
  | CallInv (J_this : bool) (global coupled : bool)
  | CallPlus (J_this J_other : bool) (global coupled : bool)
  | CallLog (J_this : bool) (global coupled : bool).

(** ** An exact instance of the primitives

    Rigid-body transformations over the integers, used to run the metric on
    concrete buffers.  A pose is a quaternion [(x, y, z, w)] followed by a
    translation; inverse and composition are the rigid-body formulas, exact
    on unit quaternions.  The logarithm keeps the translation and takes the
    rotation to first order, [2 (x, y, z)], which is exact at the identity
    rotation.  The principal values do not look at the convention flags.  The
    derivatives are stand-ins: diagonal matrices whose entry records the
    primitive, the convention and the operand, so that a product shows which
    derivatives went into it. *)
Module IntegerModel.

Definition pose (x y z w tx ty tz : Z) : Input Z := [# x; y; z; w; tx; ty; tz].

Definition tangent (wx wy wz vx vy vz : Z) : Output Z := [# wx; wy; wz; vx; vy; vz].

Definition qx (p : Input Z) : Z := p !!! 0%fin.
Definition qy (p : Input Z) : Z := p !!! 1%fin.
Definition qz (p : Input Z) : Z := p !!! 2%fin.
Definition qw (p : Input Z) : Z := p !!! 3%fin.
Definition tx (p : Input Z) : Z := p !!! 4%fin.
Definition ty (p : Input Z) : Z := p !!! 5%fin.
Definition tz (p : Input Z) : Z := p !!! 6%fin.

(** The rotation of [(vx, vy, vz)] by the unit quaternion [(x, y, z, w)]:
    [v + 2 w (u × v) + 2 u × (u × v)] with [u = (x, y, z)]. *)
Definition rotate (x y z w vx vy vz : Z) : Z * Z * Z :=
  let cx := y * vz - z * vy in
  let cy := z * vx - x * vz in
  let cz := x * vy - y * vx in
  (vx + 2 * (w * cx + (y * cz - z * cy)),
   vy + 2 * (w * cy + (z * cx - x * cz)),
   vz + 2 * (w * cz + (x * cy - y * cx))).

Definition inverse (global coupled : bool) (p : Input Z) : Input Z :=
  let '(rx, ry, rz) :=
    rotate (- qx p) (- qy p) (- qz p) (qw p) (tx p) (ty p) (tz p) in
  pose (- qx p) (- qy p) (- qz p) (qw p) (- rx) (- ry) (- rz).

Definition compose (global coupled : bool) (a b : Input Z) : Input Z :=
  let '(rx, ry, rz) :=
    rotate (qx a) (qy a) (qz a) (qw a) (tx b) (ty b) (tz b) in
  pose (qw a * qx b + qx a * qw b + qy a * qz b - qz a * qy b)
       (qw a * qy b - qx a * qz b + qy a * qw b + qz a * qx b)
       (qw a * qz b + qx a * qy b - qy a * qx b + qz a * qw b)
       (qw a * qw b - qx a * qx b - qy a * qy b - qz a * qz b)
       (tx a + rx) (ty a + ry) (tz a + rz).

Definition logarithm (global coupled : bool) (p : Input Z) : Output Z :=
  tangent (2 * qx p) (2 * qy p) (2 * qz p) (tx p) (ty p) (tz p).

(** A logarithm whose value depends on [coupled]: the coupled reading
    treats the tangent as one block and takes the translation through the
    first-order inverse of the rotation, [t - u × t] with [u = (x, y, z)];
    the decoupled reading is [logarithm].  The two agree at the identity
    rotation. *)
Definition coupled_logarithm (global coupled : bool) (p : Input Z) : Output Z :=
  if coupled
  then tangent (2 * qx p) (2 * qy p) (2 * qz p)
         (tx p - (qy p * tz p - qz p * ty p))
         (ty p - (qz p * tx p - qx p * tz p))
         (tz p - (qx p * ty p - qy p * tx p))
  else logarithm global coupled p.

Definition convention (global coupled : bool) : Z :=
  (if global then 1 else 0) + (if coupled then 2 else 0).

Definition diagonal (d : Z) : Jacobian Z :=
  fun_to_vec (λ i : fin Jacobian_kNumParameters,
    if (fin_to_nat i / 6 =? fin_to_nat i mod 6)%nat then d else 0).

Definition inverse_jacobian (global coupled : bool) (p : Input Z) : Jacobian Z :=
  diagonal (- (1 + convention global coupled + tx p)).

Definition compose_jacobian_this (global coupled : bool) (a b : Input Z)
  : Jacobian Z :=
  diagonal (5 + convention global coupled + tx a).

Definition compose_jacobian_other (global coupled : bool) (a b : Input Z)
  : Jacobian Z :=
  diagonal (9 + convention global coupled + tx b).

Definition logarithm_jacobian (global coupled : bool) (p : Input Z) : Jacobian Z :=
  diagonal (13 + convention global coupled + tx p).

(** The product of two 6×6 matrices stored row by row. *)
Definition entry (a : Jacobian Z) (i j : nat) : Z :=
  nth (6 * i + j) (vec_to_list a) 0.

Definition product (a b : Jacobian Z) : Jacobian Z :=
  fun_to_vec (λ i : fin Jacobian_kNumParameters,
    fold_right Z.add 0
      (map (λ k, entry a (fin_to_nat i / 6) k * entry b k (fin_to_nat i mod 6))
           (seq 0 6))).

(** The pose with the identity rotation and the given translation, and the
    tangent with no rotation and the given translation. *)
Definition translated (x y z : Z) : Input Z := pose 0 0 0 1 x y z.

Definition displacement (x y z : Z) : Output Z := tangent 0 0 0 x y z.

Definition identity : Input Z := translated 0 0 0.

(** Two poses with the same rotation, a half turn about the z axis, and
    different translations. *)
Definition turned : Input Z := pose 0 0 1 0 3 (-2) 5.

Definition turned_near : Input Z := pose 0 0 1 0 1 0 0.

(** The poses the instance is exact on. *)
Definition unit_rotation (p : Input Z) : Prop :=
  qx p * qx p + qy p * qy p + qz p * qz p + qw p * qw p = 1.

(** Caller buffers: two poses at [lhs_at] and [rhs_at], and room for the
    tangent and the two Jacobians. *)
Definition lhs_at : ptr := 16.
Definition rhs_at : ptr := 32.
Definition output_at : ptr := 48.
Definition J_lhs_at : ptr := 64.
Definition J_rhs_at : ptr := 128.
Definition local_at : ptr := 256.

Definition buffers (lhs rhs : Input Z) : memory Z :=
  store lhs_at lhs (store rhs_at rhs (λ _, 0)).

End IntegerModel.

(** ** The metric *)

Section Metric.
Context {Scalar : Type}.

(** The build configuration: the two macros behind [kGlobal] and [kCoupled]. *)
Variable HYPER_DEFAULT_TO_GLOBAL_MANIFOLD_DERIVATIVES : bool.
Variable HYPER_DEFAULT_TO_COUPLED_MANIFOLD_DERIVATIVES : bool.

(** The dense product of two Jacobians, [a.lazyProduct(b)], on [data()]
    arrays; it belongs to the matrix library. *)
Variable lazyProduct : Jacobian Scalar → Jacobian Scalar → Jacobian Scalar.

(** The group primitives of [SE3], which live in the groups header: for each,
    the principal value and the derivatives it offers, as functions of the
    convention flags [global] and [coupled] and of the operands. *)
Variable gInv_value : bool → bool → Input Scalar → Input Scalar.
Variable gInv_jacobian : bool → bool → Input Scalar → Jacobian Scalar.
Variable gPlus_value : bool → bool → Input Scalar → Input Scalar → Input Scalar.
Variable gPlus_jacobian_this :
  bool → bool → Input Scalar → Input Scalar → Jacobian Scalar.
Variable gPlus_jacobian_other :
  bool → bool → Input Scalar → Input Scalar → Jacobian Scalar.
Variable gLog_value : bool → bool → Input Scalar → Output Scalar.
Variable gLog_jacobian : bool → bool → Input Scalar → Jacobian Scalar.

(** *** State *)

Record State : Type := { mem : memory Scalar; calls : list Call }.

Definition M (A : Type) : Type := State → A * State.

#[local] Instance M_ret : MRet M := λ A a s, (a, s).

#[local] Instance M_bind : MBind M :=
  λ A B f c s, let (a, s') := c s in f a s'.

Definition read (n : nat) (p : ptr) : M (vec Scalar n) :=
  λ s, (load n (mem s) p, s).

Definition write {n : nat} (p : ptr) (v : vec Scalar n) : M unit :=
  λ s, (tt, {| mem := store p v (mem s); calls := calls s |}).

Definition issue (c : Call) : M unit :=
  λ s, (tt, {| mem := mem s; calls := calls s ++ [c] |}).

(** *** The primitives as called *)

(** What a call hands back for one derivative: the Jacobian when a
    destination was supplied, nothing otherwise. *)
Definition deriv (supplied : bool) : Type :=
  if supplied then Jacobian Scalar else unit.

Definition written (supplied : bool) (J : Jacobian Scalar) : deriv supplied :=
  match supplied with true => J | false => tt end.

(** Modelled from the spec: [gInv], [gPlus] and [gLog] are members of [SE3]
    in the groups header, which the metric header only includes.  The spec
    gives their contract: each takes the convention flags and an optional
    destination per derivative, always returns its principal value, and
    writes a derivative exactly when its destination is supplied.  A call is
    entered in the log with the destinations and flags it was given. *)
Definition gInv (this : Input Scalar) (J_this : bool) (global coupled : bool)
  : M (Input Scalar * deriv J_this) :=
  issue (CallInv J_this global coupled);;
  mret (gInv_value global coupled this,
        written J_this (gInv_jacobian global coupled this)).

Definition gPlus (this other : Input Scalar) (J_this J_other : bool)
    (global coupled : bool)
  : M (Input Scalar * deriv J_this * deriv J_other) :=
  issue (CallPlus J_this J_other global coupled);;
  mret (gPlus_value global coupled this other,
        written J_this (gPlus_jacobian_this global coupled this other),
        written J_other (gPlus_jacobian_other global coupled this other)).

Definition gLog (this : Input Scalar) (J_this : bool) (global coupled : bool)
  : M (Output Scalar * deriv J_this) :=
  issue (CallLog J_this global coupled);;
  mret (gLog_value global coupled this,
        written J_this (gLog_jacobian global coupled this)).

(** Modelled from the spec: the default arguments of the primitives are
    declared in the groups header.  A primitive called without flags runs
    under the process-wide default convention, the two build constants, and
    without a derivative destination. *)
Definition default_global : bool := HYPER_DEFAULT_TO_GLOBAL_MANIFOLD_DERIVATIVES.

Definition default_coupled : bool := HYPER_DEFAULT_TO_COUPLED_MANIFOLD_DERIVATIVES.

(** *** The class *)

Definition kInputSize : nat := Input_kNumParameters.

Definition kOutputSize : nat := Output_kNumParameters.

Definition kGlobal : bool := HYPER_DEFAULT_TO_GLOBAL_MANIFOLD_DERIVATIVES.

Definition kCoupled : bool := HYPER_DEFAULT_TO_COUPLED_MANIFOLD_DERIVATIVES.

Record ManifoldMetric : Type := { global_ : bool; coupled_ : bool }.

(** The constructor, [ManifoldMetric(global, coupled)]. *)
Definition ManifoldMetric_ctor (global coupled : bool) : ManifoldMetric :=
  {| global_ := global; coupled_ := coupled |}.

(** The constructor with both arguments defaulted. *)
Definition ManifoldMetric_default : ManifoldMetric :=
  ManifoldMetric_ctor kGlobal kCoupled.

(** The stateless entry point on raw pointers.  [lhs_] and [rhs_] are views
    in the source; a view is read where a primitive is invoked on it, which
    is before the first write in every branch.  The Jacobians declared in a
    branch are call-local, and each is handed to a primitive as a destination
    before it is used. *)
Definition Distance (lhs rhs output J_lhs J_rhs : ptr) (global coupled : bool)
  : M unit :=
  if is_set J_lhs || is_set J_rhs then
    if is_set J_lhs && is_set J_rhs then
      rhs_ ← read Input_kNumParameters rhs;
      '(i_rhs, J_ir_r) ← gInv rhs_ true global coupled;
      lhs_ ← read Input_kNumParameters lhs;
      '(lhs_plus_i_rhs, J_p_l, J_p_ir) ←
        gPlus lhs_ i_rhs true true global coupled;
      '(tangent, J_t_p) ← gLog lhs_plus_i_rhs true global coupled;
      write output tangent;;
      write J_lhs (lazyProduct J_t_p J_p_l);;
      write J_rhs (lazyProduct J_t_p (lazyProduct J_p_ir J_ir_r))
    else if is_set J_lhs then
      rhs_ ← read Input_kNumParameters rhs;
      '(i_rhs, _) ← gInv rhs_ false global coupled;
      lhs_ ← read Input_kNumParameters lhs;
      '(lhs_plus_i_rhs, J_p_l, _) ←
        gPlus lhs_ i_rhs true false global coupled;
      '(tangent, J_t_p) ← gLog lhs_plus_i_rhs true global coupled;
      write output tangent;;
      write J_lhs (lazyProduct J_t_p J_p_l)
    else
      rhs_ ← read Input_kNumParameters rhs;
      '(i_rhs, J_ir_r) ← gInv rhs_ true global coupled;
      lhs_ ← read Input_kNumParameters lhs;
      '(lhs_plus_i_rhs, _, J_p_ir) ←
        gPlus lhs_ i_rhs false true global coupled;
      '(tangent, J_t_p) ← gLog lhs_plus_i_rhs true global coupled;
      write output tangent;;
      write J_rhs (lazyProduct J_t_p (lazyProduct J_p_ir J_ir_r))
  else
    rhs_ ← read Input_kNumParameters rhs;
    '(i_rhs, _) ← gInv rhs_ false default_global default_coupled;
    lhs_ ← read Input_kNumParameters lhs;
    '(lhs_plus_i_rhs, _, _) ←
      gPlus lhs_ i_rhs false false default_global default_coupled;
    '(tangent, _) ← gLog lhs_plus_i_rhs false default_global default_coupled;
    write output tangent.

(** The stateless entry point on [Eigen::Ref] arguments, returning the
    tangent by value.  [lhs] and [rhs] are the [data()] pointers of the two
    references; [output] is the address of the automatic variable
    [Output output], which the source does not choose. *)
Definition Distance_ref (lhs rhs J_lhs J_rhs : ptr) (global coupled : bool)
    (output : ptr) : M (Output Scalar) :=
  Distance lhs rhs output J_lhs J_rhs global coupled;;
  read Output_kNumParameters output.

Definition inputSize (this : ManifoldMetric) : Z := Z.of_nat kInputSize.

Definition outputSize (this : ManifoldMetric) : Z := Z.of_nat kOutputSize.

(** The instance-bound entry points. *)
Definition distance (this : ManifoldMetric)
    (lhs rhs output J_lhs J_rhs : ptr) : M unit :=
  Distance lhs rhs output J_lhs J_rhs (global_ this) (coupled_ this).

Definition distance_ref (this : ManifoldMetric)
    (lhs rhs J_lhs J_rhs : ptr) (output : ptr) : M (Output Scalar) :=
  Distance_ref lhs rhs J_lhs J_rhs (global_ this) (coupled_ this) output.

(** *** What the specification says the metric computes *)

(** The convention the chain of one evaluation runs under: the flags of the
    call when a Jacobian is requested, the defaults of the primitives
    otherwise. *)
Definition chain_global (J_lhs J_rhs : ptr) (global : bool) : bool :=
  if is_set J_lhs || is_set J_rhs then global else default_global.

Definition chain_coupled (J_lhs J_rhs : ptr) (coupled : bool) : bool :=
  if is_set J_lhs || is_set J_rhs then coupled else default_coupled.

(** [log(lhs ∘ inverse(rhs))] under one convention. *)
Definition spec_tangent (global coupled : bool) (lhs rhs : Input Scalar)
  : Output Scalar :=
  gLog_value global coupled
    (gPlus_value global coupled lhs (gInv_value global coupled rhs)).

(** [J_log · J_compose_wrt_lhs]. *)
Definition spec_J_lhs (global coupled : bool) (lhs rhs : Input Scalar)
  : Jacobian Scalar :=
  lazyProduct
    (gLog_jacobian global coupled
       (gPlus_value global coupled lhs (gInv_value global coupled rhs)))
    (gPlus_jacobian_this global coupled lhs (gInv_value global coupled rhs)).

(** [J_log · J_compose_wrt_invRhs · J_inverse]. *)
Definition spec_J_rhs (global coupled : bool) (lhs rhs : Input Scalar)
  : Jacobian Scalar :=
  lazyProduct
    (gLog_jacobian global coupled
       (gPlus_value global coupled lhs (gInv_value global coupled rhs)))
    (lazyProduct
       (gPlus_jacobian_other global coupled lhs (gInv_value global coupled rhs))
       (gInv_jacobian global coupled rhs)).

(** The output buffer keeps the tangent: no Jacobian buffer that the call
    writes afterwards overlaps it. *)
Definition tangent_kept (output J_lhs J_rhs : ptr) : Prop :=
  (J_lhs ≠ nullptr →
   separated output Output_kNumParameters J_lhs Jacobian_kNumParameters)
  ∧ (J_rhs ≠ nullptr →
     separated output Output_kNumParameters J_rhs Jacobian_kNumParameters).

(** A condition on the primitives that neither the metric header nor the
    spec states: the principal values are the same under every convention,
    the flags selecting the derivatives only.  It is never taken for granted;
    where it appears it is an explicit premise. *)
Definition values_ignore_flags : Prop :=
  (∀ g c g' c' p, gInv_value g c p = gInv_value g' c' p)
  ∧ (∀ g c g' c' p q, gPlus_value g c p q = gPlus_value g' c' p q)
  ∧ (∀ g c g' c' p, gLog_value g c p = gLog_value g' c' p).

(** Modelled from the spec: the first group law behind the identity
    property.  The primitives are defined outside the metric header; the
    glossary has the inverse of a pose compose with the pose to the
    identity.  [p] is a pose the law holds for, under every convention. *)
Definition inverse_cancels (identity p : Input Scalar) : Prop :=
  ∀ g c, gPlus_value g c p (gInv_value g c p) = identity.

(** Modelled from the spec: the second law.  The glossary has the logarithm
    give the tangent of a pose relative to the identity, which is the zero
    tangent at the identity itself, under every convention. *)
Definition log_of_identity (identity : Input Scalar) (zero : Scalar) : Prop :=
  ∀ g c, gLog_value g c identity = vreplicate Output_kNumParameters zero.

(** Modelled from the spec: what the primitives, defined outside the metric
    header, do on the poses of the concrete scenario, where every rotation
    is the identity.
    [translated x y z] is the pose with the identity rotation and the
    translation [(x, y, z)], [displacement x y z] the tangent of no rotation
    and translation [(x, y, z)].  The inverse of the pose translated by
    [(1, 0, 0)] is the pose translated by [(-1, 0, 0)]; composing the
    identity pose with it leaves it; its logarithm is its translation. *)
Definition translations_behave (zero one minus_one : Scalar)
    (translated : Scalar → Scalar → Scalar → Input Scalar)
    (displacement : Scalar → Scalar → Scalar → Output Scalar) : Prop :=
  (∀ g c, gInv_value g c (translated one zero zero)
          = translated minus_one zero zero)
  ∧ (∀ g c, gPlus_value g c (translated zero zero zero)
              (translated minus_one zero zero)
            = translated minus_one zero zero)
  ∧ (∀ g c, gLog_value g c (translated minus_one zero zero)
            = displacement minus_one zero zero).

(** The two pose buffers stay clear of every buffer the call writes. *)
Definition poses_kept (lhs rhs output J_lhs J_rhs : ptr) : Prop :=
  ∀ q, q = lhs ∨ q = rhs →
    separated q Input_kNumParameters output Output_kNumParameters
    ∧ (J_lhs ≠ nullptr →
       separated q Input_kNumParameters J_lhs Jacobian_kNumParameters)
    ∧ (J_rhs ≠ nullptr →
       separated q Input_kNumParameters J_rhs Jacobian_kNumParameters).

(** The addresses a call writes: the output buffer and the buffers of the
    requested Jacobians. *)
Definition written_by (output J_lhs J_rhs : ptr) (a : Z) : Prop :=
  output <= a < output + Z.of_nat Output_kNumParameters
  ∨ (J_lhs ≠ nullptr ∧ J_lhs <= a < J_lhs + Z.of_nat Jacobian_kNumParameters)
  ∨ (J_rhs ≠ nullptr ∧ J_rhs <= a < J_rhs + Z.of_nat Jacobian_kNumParameters).

(** The memory and the call log a computation leaves behind. *)
Definition exec {A : Type} (c : M A) (s : State) : State := (c s).2.

(** ** Facts about pointers and memory *)

Lemma is_set_nullptr : is_set nullptr = false.
Proof. reflexivity. Qed.

Lemma is_set_true (p : ptr) : p ≠ nullptr → is_set p = true.
Proof.
  intros Hp. unfold is_set.
  destruct (Z.eqb_spec p nullptr) as [E | _]; [contradiction | reflexivity].
Qed.

Lemma is_set_true_inv (p : ptr) : is_set p = true → p ≠ nullptr.
Proof.
  unfold is_set. destruct (Z.eqb_spec p nullptr) as [E | N]; [discriminate | auto].
Qed.

Lemma is_set_false_inv (p : ptr) : is_set p = false → p = nullptr.
Proof.
  unfold is_set. destruct (Z.eqb_spec p nullptr) as [E | _]; [auto | discriminate].
Qed.

Lemma separated_sym (p q : ptr) (n k : nat) : separated p n q k → separated q k p n.
Proof. unfold separated. tauto. Qed.

Lemma store_inside {n} (p : ptr) (v : vec Scalar n) (m : memory Scalar) (i : fin n) :
  store p v m (p + Z.of_nat (fin_to_nat i)) = v !!! i.
Proof.
  unfold store.
  pose proof (fin_to_nat_lt i) as Hi.
  rewrite bool_decide_eq_true_2 by lia.
  replace (Z.to_nat (p + Z.of_nat (fin_to_nat i) - p)) with (fin_to_nat i) by lia.
  assert (vec_to_list v !! fin_to_nat i = Some (v !!! i)) as ->
    by (by apply vlookup_lookup).
  reflexivity.
Qed.

Lemma store_outside {n} (p : ptr) (v : vec Scalar n) (m : memory Scalar) (a : Z) :
  a < p ∨ p + Z.of_nat n <= a → store p v m a = m a.
Proof.
  intros Ha. unfold store. rewrite bool_decide_eq_false_2 by lia. reflexivity.
Qed.

(** Inside its buffer a store decides the content, whatever was there. *)
Lemma store_covers {n} (p : ptr) (v : vec Scalar n) (m1 m2 : memory Scalar) (a : Z) :
  p <= a < p + Z.of_nat n → store p v m1 a = store p v m2 a.
Proof.
  intros Ha. unfold store. rewrite bool_decide_eq_true_2 by lia.
  destruct (lookup_lt_is_Some_2 (vec_to_list v) (Z.to_nat (a - p))) as [x Hx].
  - rewrite length_vec_to_list. lia.
  - rewrite Hx. reflexivity.
Qed.

(** A store keeps two memories equal at an address where they were equal. *)
Lemma store_agree {n} (p : ptr) (v : vec Scalar n) (m1 m2 : memory Scalar) (a : Z) :
  m1 a = m2 a → store p v m1 a = store p v m2 a.
Proof.
  intros Ha. unfold store. rewrite Ha. reflexivity.
Qed.

Lemma load_store {n} (p : ptr) (v : vec Scalar n) (m : memory Scalar) :
  load n (store p v m) p = v.
Proof.
  apply vec_eq. intros i. unfold load.
  rewrite lookup_fun_to_vec. apply store_inside.
Qed.

Lemma load_store_separated {n k} (p q : ptr) (v : vec Scalar n) (m : memory Scalar) :
  separated p n q k → load k (store p v m) q = load k m q.
Proof.
  intros Hsep. apply vec_eq. intros i. unfold load.
  rewrite !lookup_fun_to_vec.
  pose proof (fin_to_nat_lt i) as Hi.
  apply store_outside. unfold separated in Hsep. lia.
Qed.

Lemma load_ext {n} (m1 m2 : memory Scalar) (p : ptr) :
  (∀ a, p <= a < p + Z.of_nat n → m1 a = m2 a) → load n m1 p = load n m2 p.
Proof.
  intros H. apply vec_eq. intros i. unfold load.
  rewrite !lookup_fun_to_vec.
  pose proof (fin_to_nat_lt i) as Hi. apply H. lia.
Qed.

(** ** The four paths of [Distance] *)

Ltac run_path :=
  cbv [orb andb mbind M_bind mret M_ret read gInv gPlus gLog issue write written];
  cbn [mem calls];
  rewrite <- ?app_assoc; cbn [app].

Lemma Distance_both lhs rhs output J_lhs J_rhs global coupled s :
  is_set J_lhs = true → is_set J_rhs = true →
  let a := load Input_kNumParameters (mem s) lhs in
  let b := load Input_kNumParameters (mem s) rhs in
  Distance lhs rhs output J_lhs J_rhs global coupled s =
  (tt, {| mem := store J_rhs (spec_J_rhs global coupled a b)
                   (store J_lhs (spec_J_lhs global coupled a b)
                      (store output (spec_tangent global coupled a b) (mem s)));
          calls := calls s ++ [CallInv true global coupled;
                               CallPlus true true global coupled;
                               CallLog true global coupled] |}).
Proof.
  intros HL HR a b. unfold Distance. rewrite HL, HR. run_path. reflexivity.
Qed.

Lemma Distance_lhs_only lhs rhs output J_lhs J_rhs global coupled s :
  is_set J_lhs = true → is_set J_rhs = false →
  let a := load Input_kNumParameters (mem s) lhs in
  let b := load Input_kNumParameters (mem s) rhs in
  Distance lhs rhs output J_lhs J_rhs global coupled s =
  (tt, {| mem := store J_lhs (spec_J_lhs global coupled a b)
                   (store output (spec_tangent global coupled a b) (mem s));
          calls := calls s ++ [CallInv false global coupled;
                               CallPlus true false global coupled;
                               CallLog true global coupled] |}).
Proof.
  intros HL HR a b. unfold Distance. rewrite HL, HR. run_path. reflexivity.
Qed.

Lemma Distance_rhs_only lhs rhs output J_lhs J_rhs global coupled s :
  is_set J_lhs = false → is_set J_rhs = true →
  let a := load Input_kNumParameters (mem s) lhs in
  let b := load Input_kNumParameters (mem s) rhs in
  Distance lhs rhs output J_lhs J_rhs global coupled s =
  (tt, {| mem := store J_rhs (spec_J_rhs global coupled a b)
                   (store output (spec_tangent global coupled a b) (mem s));
          calls := calls s ++ [CallInv true global coupled;
                               CallPlus false true global coupled;
                               CallLog true global coupled] |}).
Proof.
  intros HL HR a b. unfold Distance. rewrite HL, HR. run_path. reflexivity.
Qed.

Lemma Distance_neither lhs rhs output J_lhs J_rhs global coupled s :
  is_set J_lhs = false → is_set J_rhs = false →
  let a := load Input_kNumParameters (mem s) lhs in
  let b := load Input_kNumParameters (mem s) rhs in
  Distance lhs rhs output J_lhs J_rhs global coupled s =
  (tt, {| mem := store output
                   (spec_tangent default_global default_coupled a b) (mem s);
          calls := calls s ++ [CallInv false default_global default_coupled;
                               CallPlus false false default_global default_coupled;
                               CallLog false default_global default_coupled] |}).
Proof.
  intros HL HR a b. unfold Distance. rewrite HL, HR. run_path. reflexivity.
Qed.

(** The tangent in the output buffer after a call, for the four paths at
    once. *)
Lemma Distance_output lhs rhs output J_lhs J_rhs global coupled s :
  tangent_kept output J_lhs J_rhs →
  load Output_kNumParameters
    (mem (exec (Distance lhs rhs output J_lhs J_rhs global coupled) s)) output =
  spec_tangent (chain_global J_lhs J_rhs global) (chain_coupled J_lhs J_rhs coupled)
    (load Input_kNumParameters (mem s) lhs)
    (load Input_kNumParameters (mem s) rhs).
Proof.
  intros [KL KR]. unfold exec, chain_global, chain_coupled.
  destruct (is_set J_lhs) eqn:HL, (is_set J_rhs) eqn:HR; cbn [orb].
  - rewrite Distance_both by assumption. cbn [snd mem].
    apply is_set_true_inv in HL, HR.
    rewrite (load_store_separated J_rhs output) by (apply separated_sym; auto).
    rewrite (load_store_separated J_lhs output) by (apply separated_sym; auto).
    apply load_store.
  - rewrite Distance_lhs_only by assumption. cbn [snd mem].
    apply is_set_true_inv in HL.
    rewrite (load_store_separated J_lhs output) by (apply separated_sym; auto).
    apply load_store.
  - rewrite Distance_rhs_only by assumption. cbn [snd mem].
    apply is_set_true_inv in HR.
    rewrite (load_store_separated J_rhs output) by (apply separated_sym; auto).
    apply load_store.
  - rewrite Distance_neither by assumption. cbn [snd mem].
    apply load_store.
Qed.

(** Where a Jacobian buffer is written, its final content does not depend
    on where the tangent went. *)
Lemma Distance_jacobian_cells lhs rhs output output' J_lhs J_rhs global coupled s a :
  (is_set J_lhs = true
   ∧ J_lhs <= a < J_lhs + Z.of_nat Jacobian_kNumParameters)
  ∨ (is_set J_rhs = true
     ∧ J_rhs <= a < J_rhs + Z.of_nat Jacobian_kNumParameters) →
  mem (exec (Distance lhs rhs output J_lhs J_rhs global coupled) s) a =
  mem (exec (Distance lhs rhs output' J_lhs J_rhs global coupled) s) a.
Proof.
  intros Ha. unfold exec.
  destruct (is_set J_lhs) eqn:HL, (is_set J_rhs) eqn:HR.
  - rewrite !Distance_both by assumption. cbn [snd mem].
    destruct (decide (J_rhs <= a < J_rhs + Z.of_nat Jacobian_kNumParameters))
      as [In | Out].
    + by apply store_covers.
    + apply store_agree. apply store_covers.
      destruct Ha as [[_ ?] | [_ ?]]; [assumption | contradiction].
  - rewrite !Distance_lhs_only by assumption. cbn [snd mem].
    apply store_covers.
    destruct Ha as [[_ ?] | [? _]]; [assumption | discriminate].
  - rewrite !Distance_rhs_only by assumption. cbn [snd mem].
    apply store_covers.
    destruct Ha as [[? _] | [_ ?]]; [discriminate | assumption].
  - destruct Ha as [[? _] | [? _]]; discriminate.
Qed.

Lemma Distance_calls lhs rhs output output' J_lhs J_rhs global coupled s :
  calls (exec (Distance lhs rhs output J_lhs J_rhs global coupled) s) =
  calls (exec (Distance lhs rhs output' J_lhs J_rhs global coupled) s).
Proof.
  unfold exec.
  destruct (is_set J_lhs) eqn:HL, (is_set J_rhs) eqn:HR.
  - by rewrite !Distance_both.
  - by rewrite !Distance_lhs_only.
  - by rewrite !Distance_rhs_only.
  - by rewrite !Distance_neither.
Qed.

Lemma Distance_ref_unfold lhs rhs J_lhs J_rhs global coupled output s :
  Distance_ref lhs rhs J_lhs J_rhs global coupled output s =
  (load Output_kNumParameters
     (mem (exec (Distance lhs rhs output J_lhs J_rhs global coupled) s)) output,
   exec (Distance lhs rhs output J_lhs J_rhs global coupled) s).
Proof.
  unfold Distance_ref, exec, mbind, M_bind, read.
  destruct (Distance lhs rhs output J_lhs J_rhs global coupled s) as [[] s'].
  reflexivity.
Qed.

(** Under a convention the values do not depend on, the chain convention can
    be replaced by any other. *)
Lemma spec_tangent_any_flags g c g' c' (a b : Input Scalar) :
  values_ignore_flags → spec_tangent g c a b = spec_tangent g' c' a b.
Proof.
  intros (Hinv & Hplus & Hlog). unfold spec_tangent.
  rewrite (Hinv g c g' c'), (Hplus g c g' c'), (Hlog g c g' c'). reflexivity.
Qed.

(** Without a Jacobian requested, the flags of the call are not looked at. *)
Lemma Distance_without_jacobians_ignores_flags
    lhs rhs output global coupled global' coupled' s :
  Distance lhs rhs output nullptr nullptr global coupled s =
  Distance lhs rhs output nullptr nullptr global' coupled' s.
Proof. by rewrite !Distance_neither. Qed.

(** A call writes the output buffer and the requested Jacobian buffers, and
    nothing else. *)
Lemma Distance_frame lhs rhs output J_lhs J_rhs global coupled s a :
  ¬ (output <= a < output + Z.of_nat Output_kNumParameters) →
  (J_lhs ≠ nullptr → ¬ (J_lhs <= a < J_lhs + Z.of_nat Jacobian_kNumParameters)) →
  (J_rhs ≠ nullptr → ¬ (J_rhs <= a < J_rhs + Z.of_nat Jacobian_kNumParameters)) →
  mem (exec (Distance lhs rhs output J_lhs J_rhs global coupled) s) a = mem s a.
Proof.
  intros Hout HL HR. unfold exec.
  destruct (is_set J_lhs) eqn:EL, (is_set J_rhs) eqn:ER.
  - rewrite Distance_both by assumption. cbn [snd mem].
    apply is_set_true_inv in EL, ER. specialize (HL EL). specialize (HR ER).
    rewrite !store_outside by lia. reflexivity.
  - rewrite Distance_lhs_only by assumption. cbn [snd mem].
    apply is_set_true_inv in EL. specialize (HL EL).
    rewrite !store_outside by lia. reflexivity.
  - rewrite Distance_rhs_only by assumption. cbn [snd mem].
    apply is_set_true_inv in ER. specialize (HR ER).
    rewrite !store_outside by lia. reflexivity.
  - rewrite Distance_neither by assumption. cbn [snd mem].
    rewrite !store_outside by lia. reflexivity.
Qed.

(** ** The claims *)

(** C1.  Whatever Jacobians are requested and whatever the convention flags,
    the tangent vector [Distance] leaves in the output buffer is
    [log(lhs ∘ inverse(rhs))] of the two poses it was given: the three
    primitives chained under one convention, that of the call when a
    Jacobian is requested and the default one otherwise, and under the flags
    of the call themselves when the principal values do not depend on the
    convention.  When no Jacobian is requested, the chain is three calls none
    of which is given a derivative destination. *)
Theorem Distance_tangent_is_log_of_difference
    lhs rhs output J_lhs J_rhs global coupled s :
  tangent_kept output J_lhs J_rhs →
  let s' := exec (Distance lhs rhs output J_lhs J_rhs global coupled) s in
  let a := load Input_kNumParameters (mem s) lhs in
  let b := load Input_kNumParameters (mem s) rhs in
  load Output_kNumParameters (mem s') output =
    spec_tangent (chain_global J_lhs J_rhs global)
      (chain_coupled J_lhs J_rhs coupled) a b
  ∧ (values_ignore_flags →
     load Output_kNumParameters (mem s') output = spec_tangent global coupled a b)
  ∧ (J_lhs = nullptr → J_rhs = nullptr →
     calls s' = calls s ++ [CallInv false default_global default_coupled;
                            CallPlus false false default_global default_coupled;
                            CallLog false default_global default_coupled]).
Proof.
  intros Hkept s' a b. subst s' a b. split; [| split].
  - by apply Distance_output.
  - intros Hvalues. rewrite Distance_output by assumption.
    by apply spec_tangent_any_flags.
  - intros -> ->. unfold exec.
    rewrite Distance_neither by apply is_set_nullptr. reflexivity.
Qed.

(** C3.  With only [J_lhs] requested, [Distance] calls the inverse without
    a derivative destination, the composition with a destination for the
    derivative in its first argument only, and the logarithm with one, all
    under the flags of the call, and leaves [J_log · J_compose_wrt_lhs] in
    the [J_lhs] buffer. *)
Theorem Distance_J_lhs_only lhs rhs output J_lhs global coupled s :
  J_lhs ≠ nullptr →
  let s' := exec (Distance lhs rhs output J_lhs nullptr global coupled) s in
  let a := load Input_kNumParameters (mem s) lhs in
  let b := load Input_kNumParameters (mem s) rhs in
  calls s' = calls s ++ [CallInv false global coupled;
                         CallPlus true false global coupled;
                         CallLog true global coupled]
  ∧ load Jacobian_kNumParameters (mem s') J_lhs =
      lazyProduct
        (gLog_jacobian global coupled
           (gPlus_value global coupled a (gInv_value global coupled b)))
        (gPlus_jacobian_this global coupled a (gInv_value global coupled b)).
Proof.
  intros HL s' a b. subst s' a b. unfold exec.
  rewrite Distance_lhs_only by (auto using is_set_true, is_set_nullptr).
  cbn [snd mem calls]. split; [reflexivity |].
  rewrite load_store. reflexivity.
Qed.

(** C4.  With only [J_rhs] requested, [Distance] calls the inverse with a
    derivative destination, the composition with a destination for the
    derivative in its second argument only, and the logarithm with one, all
    under the flags of the call, and leaves
    [J_log · (J_compose_wrt_invRhs · J_inverse)] in the [J_rhs] buffer. *)
Theorem Distance_J_rhs_only lhs rhs output J_rhs global coupled s :
  J_rhs ≠ nullptr →
  let s' := exec (Distance lhs rhs output nullptr J_rhs global coupled) s in
  let a := load Input_kNumParameters (mem s) lhs in
  let b := load Input_kNumParameters (mem s) rhs in
  calls s' = calls s ++ [CallInv true global coupled;
                         CallPlus false true global coupled;
                         CallLog true global coupled]
  ∧ load Jacobian_kNumParameters (mem s') J_rhs =
      lazyProduct
        (gLog_jacobian global coupled
           (gPlus_value global coupled a (gInv_value global coupled b)))
        (lazyProduct
           (gPlus_jacobian_other global coupled a (gInv_value global coupled b))
           (gInv_jacobian global coupled b)).
Proof.
  intros HR s' a b. subst s' a b. unfold exec.
  rewrite Distance_rhs_only by (auto using is_set_true, is_set_nullptr).
  cbn [snd mem calls]. split; [reflexivity |].
  rewrite load_store. reflexivity.
Qed.

(** C6.  One evaluation of [Distance] issues exactly three primitive calls,
    inverse, composition and logarithm in this order, and all three carry
    the same pair of convention flags: the flags of the call when a Jacobian
    is requested, the default convention otherwise. *)
Theorem Distance_chain_shares_flags lhs rhs output J_lhs J_rhs global coupled s :
  ∃ (Ji Jt Jo Jl : bool) (g c : bool),
    calls (exec (Distance lhs rhs output J_lhs J_rhs global coupled) s) =
      calls s ++ [CallInv Ji g c; CallPlus Jt Jo g c; CallLog Jl g c]
    ∧ g = chain_global J_lhs J_rhs global
    ∧ c = chain_coupled J_lhs J_rhs coupled.
Proof.
  unfold exec, chain_global, chain_coupled.
  destruct (is_set J_lhs) eqn:HL, (is_set J_rhs) eqn:HR; cbn [orb].
  - rewrite Distance_both by assumption. by eexists _, _, _, _, _, _.
  - rewrite Distance_lhs_only by assumption. by eexists _, _, _, _, _, _.
  - rewrite Distance_rhs_only by assumption. by eexists _, _, _, _, _, _.
  - rewrite Distance_neither by assumption. by eexists _, _, _, _, _, _.
Qed.

(** C7.  An instance constructed with the flags [(g, c)] gives, through
    either of its bound entry points, the result, the memory and the call log
    that the matching stateless entry point gives when called with [(g, c)]
    on the same arguments. *)
Theorem distance_forwards_stored_flags g c lhs rhs output J_lhs J_rhs s :
  distance (ManifoldMetric_ctor g c) lhs rhs output J_lhs J_rhs s =
    Distance lhs rhs output J_lhs J_rhs g c s
  ∧ distance_ref (ManifoldMetric_ctor g c) lhs rhs J_lhs J_rhs output s =
      Distance_ref lhs rhs J_lhs J_rhs g c output s.
Proof. split; reflexivity. Qed.

(** C9.  Whatever its convention flags, a metric reports the tangent
    dimension 6 as its output size and the pose parameter count 7 as its
    input size. *)
Theorem sizes_are_fixed (this : ManifoldMetric) :
  outputSize this = 6 ∧ inputSize this = 7.
Proof. split; reflexivity. Qed.


(** C5.  For a pose [p] that the inverse cancels under every convention,
    [Distance] of [p] with itself leaves the zero tangent in the output
    buffer, whatever the flags and whatever Jacobians are requested. *)
Theorem Distance_of_a_pose_with_itself
    lhs rhs output J_lhs J_rhs global coupled s (p identity : Input Scalar)
    (zero : Scalar) :
  inverse_cancels identity p →
  log_of_identity identity zero →
  load Input_kNumParameters (mem s) lhs = p →
  load Input_kNumParameters (mem s) rhs = p →
  tangent_kept output J_lhs J_rhs →
  load Output_kNumParameters
    (mem (exec (Distance lhs rhs output J_lhs J_rhs global coupled) s)) output =
  vreplicate Output_kNumParameters zero.
Proof.
  intros Hcancel Hlog Hlhs Hrhs Hkept.
  rewrite Distance_output by assumption.
  unfold spec_tangent. rewrite Hlhs, Hrhs, Hcancel. apply Hlog.
Qed.

(** C8.  With the identity pose as [lhs] and the pose translated by
    [(1, 0, 0)] with the identity rotation as [rhs], [Distance] leaves in the
    output buffer the tangent of no rotation and translation [(-1, 0, 0)],
    for both values of [coupled] (and of [global], and whatever Jacobians
    are requested). *)
Theorem Distance_of_identity_and_unit_translation
    lhs rhs output J_lhs J_rhs global coupled s (zero one minus_one : Scalar)
    (translated : Scalar → Scalar → Scalar → Input Scalar)
    (displacement : Scalar → Scalar → Scalar → Output Scalar) :
  translations_behave zero one minus_one translated displacement →
  load Input_kNumParameters (mem s) lhs = translated zero zero zero →
  load Input_kNumParameters (mem s) rhs = translated one zero zero →
  tangent_kept output J_lhs J_rhs →
  load Output_kNumParameters
    (mem (exec (Distance lhs rhs output J_lhs J_rhs global coupled) s)) output =
  displacement minus_one zero zero.
Proof.
  intros (Hinv & Hplus & Hlog) Hlhs Hrhs Hkept.
  rewrite Distance_output by assumption.
  unfold spec_tangent. rewrite Hlhs, Hrhs, Hinv, Hplus. apply Hlog.
Qed.

(** C10.  The entry point on references returns the tangent the entry point
    on raw pointers leaves in its output buffer, writes the same Jacobians
    and issues the same primitive calls, for the same poses, Jacobian
    pointers and flags.  Neither the caller's output buffer nor the automatic
    variable of the entry point on references overlaps a requested Jacobian
    buffer. *)
Theorem Distance_ref_agrees_with_raw
    lhs rhs output J_lhs J_rhs global coupled s local :
  tangent_kept output J_lhs J_rhs →
  tangent_kept local J_lhs J_rhs →
  let raw := exec (Distance lhs rhs output J_lhs J_rhs global coupled) s in
  let by_value := Distance_ref lhs rhs J_lhs J_rhs global coupled local s in
  by_value.1 = load Output_kNumParameters (mem raw) output
  ∧ (J_lhs ≠ nullptr →
     load Jacobian_kNumParameters (mem by_value.2) J_lhs =
     load Jacobian_kNumParameters (mem raw) J_lhs)
  ∧ (J_rhs ≠ nullptr →
     load Jacobian_kNumParameters (mem by_value.2) J_rhs =
     load Jacobian_kNumParameters (mem raw) J_rhs)
  ∧ calls by_value.2 = calls raw.
Proof.
  intros Hout Hlocal raw by_value. subst raw by_value.
  rewrite Distance_ref_unfold. cbn [fst snd].
  repeat split.
  - by rewrite !Distance_output.
  - intros HL. apply load_ext. intros a Ha.
    apply Distance_jacobian_cells. left. split; [by apply is_set_true | done].
  - intros HR. apply load_ext. intros a Ha.
    apply Distance_jacobian_cells. right. split; [by apply is_set_true | done].
  - apply Distance_calls.
Qed.

(** ** Further properties of the metric *)

Lemma store_covers_or_agree {n} (p : ptr) (v : vec Scalar n)
    (m1 m2 : memory Scalar) (a : Z) :
  p <= a < p + Z.of_nat n ∨ m1 a = m2 a → store p v m1 a = store p v m2 a.
Proof. intros [In | Eq]; [by apply store_covers | by apply store_agree]. Qed.

(** What a call writes is decided by the two poses it reads. *)
Lemma Distance_written_cells lhs rhs output J_lhs J_rhs global coupled s1 s2 a :
  load Input_kNumParameters (mem s1) lhs = load Input_kNumParameters (mem s2) lhs →
  load Input_kNumParameters (mem s1) rhs = load Input_kNumParameters (mem s2) rhs →
  written_by output J_lhs J_rhs a →
  mem (exec (Distance lhs rhs output J_lhs J_rhs global coupled) s1) a =
  mem (exec (Distance lhs rhs output J_lhs J_rhs global coupled) s2) a.
Proof.
  intros Hl Hr Ha. unfold exec, written_by in *.
  destruct (decide (output <= a < output + Z.of_nat Output_kNumParameters))
    as [InO | OutO];
  destruct (decide (J_lhs <= a < J_lhs + Z.of_nat Jacobian_kNumParameters))
    as [InL | OutL];
  destruct (decide (J_rhs <= a < J_rhs + Z.of_nat Jacobian_kNumParameters))
    as [InR | OutR];
  destruct (is_set J_lhs) eqn:EL, (is_set J_rhs) eqn:ER;
  try (apply is_set_false_inv in EL); try (apply is_set_false_inv in ER);
  first [ rewrite !Distance_both by assumption
        | rewrite !Distance_lhs_only by (subst; done)
        | rewrite !Distance_rhs_only by (subst; done)
        | rewrite !Distance_neither by (subst; done) ];
  cbn [snd mem]; rewrite Hl, Hr;
  repeat (apply store_covers_or_agree; first [ by left | right ]);
  exfalso; unfold nullptr in *; lia.
Qed.

(** A buffer away from everything the call writes keeps its content. *)
Lemma Distance_keeps_buffer lhs rhs output J_lhs J_rhs global coupled s q n :
  separated q n output Output_kNumParameters →
  (J_lhs ≠ nullptr → separated q n J_lhs Jacobian_kNumParameters) →
  (J_rhs ≠ nullptr → separated q n J_rhs Jacobian_kNumParameters) →
  load n (mem (exec (Distance lhs rhs output J_lhs J_rhs global coupled) s)) q =
  load n (mem s) q.
Proof.
  intros Hout HL HR. apply load_ext. intros a Ha.
  apply Distance_frame; unfold separated in *.
  - lia.
  - intros N. specialize (HL N). lia.
  - intros N. specialize (HR N). lia.
Qed.

(** X1.  With both Jacobians requested and their buffers disjoint,
    [Distance] hands every primitive a destination for each of its
    derivatives, under the flags of the call, and leaves
    [J_log · J_compose_wrt_lhs] in the [J_lhs] buffer and
    [J_log · (J_compose_wrt_invRhs · J_inverse)] in the [J_rhs] buffer, both
    products taking the same derivative of the logarithm. *)
Theorem Distance_both_jacobians lhs rhs output J_lhs J_rhs global coupled s :
  J_lhs ≠ nullptr → J_rhs ≠ nullptr →
  separated J_lhs Jacobian_kNumParameters J_rhs Jacobian_kNumParameters →
  let s' := exec (Distance lhs rhs output J_lhs J_rhs global coupled) s in
  let a := load Input_kNumParameters (mem s) lhs in
  let b := load Input_kNumParameters (mem s) rhs in
  let J_t_p :=
    gLog_jacobian global coupled
      (gPlus_value global coupled a (gInv_value global coupled b)) in
  calls s' = calls s ++ [CallInv true global coupled;
                         CallPlus true true global coupled;
                         CallLog true global coupled]
  ∧ load Jacobian_kNumParameters (mem s') J_lhs =
      lazyProduct J_t_p
        (gPlus_jacobian_this global coupled a (gInv_value global coupled b))
  ∧ load Jacobian_kNumParameters (mem s') J_rhs =
      lazyProduct J_t_p
        (lazyProduct
           (gPlus_jacobian_other global coupled a (gInv_value global coupled b))
           (gInv_jacobian global coupled b)).
Proof.
  intros HL HR Hsep s' a b J_t_p. subst s' a b J_t_p. unfold exec.
  rewrite Distance_both by by apply is_set_true.
  cbn [snd mem calls]. split; [reflexivity | split].
  - rewrite (load_store_separated J_rhs J_lhs) by by apply separated_sym.
    by rewrite load_store.
  - by rewrite load_store.
Qed.

(** X2.  A call changes caller memory only in the output buffer and in the
    buffers of the requested Jacobians: every other address, those of the
    two pose buffers among them, holds after the call what it held before,
    and nothing is written through a null Jacobian pointer. *)
Theorem Distance_writes_only_its_buffers
    lhs rhs output J_lhs J_rhs global coupled s a :
  ¬ written_by output J_lhs J_rhs a →
  mem (exec (Distance lhs rhs output J_lhs J_rhs global coupled) s) a = mem s a.
Proof.
  intros Ha. unfold written_by in Ha. apply Distance_frame; tauto.
Qed.

(** X3.  With no Jacobian requested the convention flags have no effect:
    two stateless calls with different flags, and two instances constructed
    with different flags, leave the same memory and the same call log. *)
Theorem distance_without_jacobians_is_flag_blind
    lhs rhs output global coupled global' coupled' s :
  Distance lhs rhs output nullptr nullptr global coupled s =
    Distance lhs rhs output nullptr nullptr global' coupled' s
  ∧ distance (ManifoldMetric_ctor global coupled)
      lhs rhs output nullptr nullptr s =
    distance (ManifoldMetric_ctor global' coupled')
      lhs rhs output nullptr nullptr s.
Proof.
  split.
  - apply Distance_without_jacobians_ignores_flags.
  - unfold distance. cbn [global_ coupled_ ManifoldMetric_ctor].
    apply Distance_without_jacobians_ignores_flags.
Qed.

(** X4.  On every path the primitives are handed a derivative destination
    exactly where a requested Jacobian needs it: the inverse when [J_rhs] is
    requested, the composition for its first argument when [J_lhs] is and
    for its second when [J_rhs] is, the logarithm when either is.  The call
    log before the evaluation is kept. *)
Theorem Distance_requests_only_needed_derivatives
    lhs rhs output J_lhs J_rhs global coupled s :
  calls (exec (Distance lhs rhs output J_lhs J_rhs global coupled) s) =
  calls s ++
  [CallInv (is_set J_rhs)
     (chain_global J_lhs J_rhs global) (chain_coupled J_lhs J_rhs coupled);
   CallPlus (is_set J_lhs) (is_set J_rhs)
     (chain_global J_lhs J_rhs global) (chain_coupled J_lhs J_rhs coupled);
   CallLog (is_set J_lhs || is_set J_rhs)
     (chain_global J_lhs J_rhs global) (chain_coupled J_lhs J_rhs coupled)].
Proof.
  unfold exec, chain_global, chain_coupled.
  destruct (is_set J_lhs) eqn:EL, (is_set J_rhs) eqn:ER; cbn [orb].
  - by rewrite Distance_both.
  - by rewrite Distance_lhs_only.
  - by rewrite Distance_rhs_only.
  - by rewrite Distance_neither.
Qed.

(** X5.  The [J_rhs] product is written last.  When both Jacobians are
    requested through one and the same pointer, the buffer ends up holding
    [J_log · (J_compose_wrt_invRhs · J_inverse)], the Jacobian with respect
    to [rhs]; the one with respect to [lhs] is overwritten. *)
Theorem Distance_shared_jacobian_buffer lhs rhs output J global coupled s :
  J ≠ nullptr →
  let a := load Input_kNumParameters (mem s) lhs in
  let b := load Input_kNumParameters (mem s) rhs in
  load Jacobian_kNumParameters
    (mem (exec (Distance lhs rhs output J J global coupled) s)) J =
  lazyProduct
    (gLog_jacobian global coupled
       (gPlus_value global coupled a (gInv_value global coupled b)))
    (lazyProduct
       (gPlus_jacobian_other global coupled a (gInv_value global coupled b))
       (gInv_jacobian global coupled b)).
Proof.
  intros HJ a b. subst a b. unfold exec.
  rewrite Distance_both by by apply is_set_true.
  cbn [snd mem]. by rewrite load_store.
Qed.

(** X6.  For an instance constructed with the default flags, the tangent
    left in the output buffer does not depend on which Jacobians are
    requested: every path, the one without Jacobians included, runs the
    chain under the default convention. *)
Theorem default_metric_tangent_is_path_independent
    lhs rhs output J_lhs J_rhs J_lhs' J_rhs' s :
  tangent_kept output J_lhs J_rhs →
  tangent_kept output J_lhs' J_rhs' →
  load Output_kNumParameters
    (mem (exec (distance ManifoldMetric_default lhs rhs output J_lhs J_rhs) s))
    output =
  load Output_kNumParameters
    (mem (exec (distance ManifoldMetric_default lhs rhs output J_lhs' J_rhs') s))
    output.
Proof.
  intros Hkept Hkept'. unfold distance.
  cbn [global_ coupled_ ManifoldMetric_default ManifoldMetric_ctor].
  rewrite !Distance_output by assumption.
  unfold chain_global, chain_coupled, kGlobal, kCoupled,
    default_global, default_coupled.
  by destruct (is_set J_lhs || is_set J_rhs), (is_set J_lhs' || is_set J_rhs').
Qed.

(** X7.  A call reads nothing but the two poses: from two memories that
    hold the same [kInputSize] scalars at [lhs] and at [rhs], it writes the
    same tangent and the same Jacobians, whatever else the memories hold and
    however the written buffers overlap. *)
Theorem Distance_reads_only_the_poses
    lhs rhs output J_lhs J_rhs global coupled s1 s2 :
  load kInputSize (mem s1) lhs = load kInputSize (mem s2) lhs →
  load kInputSize (mem s1) rhs = load kInputSize (mem s2) rhs →
  let s1' := exec (Distance lhs rhs output J_lhs J_rhs global coupled) s1 in
  let s2' := exec (Distance lhs rhs output J_lhs J_rhs global coupled) s2 in
  load kOutputSize (mem s1') output = load kOutputSize (mem s2') output
  ∧ (J_lhs ≠ nullptr →
     load Jacobian_kNumParameters (mem s1') J_lhs =
     load Jacobian_kNumParameters (mem s2') J_lhs)
  ∧ (J_rhs ≠ nullptr →
     load Jacobian_kNumParameters (mem s1') J_rhs =
     load Jacobian_kNumParameters (mem s2') J_rhs).
Proof.
  intros Hl Hr s1' s2'. subst s1' s2'. unfold kInputSize, kOutputSize in *.
  repeat split; intros; apply load_ext; intros a Ha;
    apply Distance_written_cells; try assumption; unfold written_by; tauto.
Qed.

(** X8.  The metric keeps no state between evaluations: when the pose
    buffers stay clear of the written buffers, evaluating a second time with
    the same arguments leaves the memory the first evaluation left. *)
Theorem Distance_twice_is_once lhs rhs output J_lhs J_rhs global coupled s a :
  poses_kept lhs rhs output J_lhs J_rhs →
  let once := exec (Distance lhs rhs output J_lhs J_rhs global coupled) s in
  let twice := exec (Distance lhs rhs output J_lhs J_rhs global coupled) once in
  mem twice a = mem once a.
Proof.
  intros Hkept once twice. subst once twice.
  destruct (Hkept lhs (or_introl eq_refl)) as (HlO & HlL & HlR).
  destruct (Hkept rhs (or_intror eq_refl)) as (HrO & HrL & HrR).
  destruct (decide (output <= a < output + Z.of_nat Output_kNumParameters))
    as [InO | OutO];
    [apply Distance_written_cells;
       [by apply Distance_keeps_buffer | by apply Distance_keeps_buffer
       | by left] |].
  destruct (decide (J_lhs ≠ nullptr
                    ∧ J_lhs <= a < J_lhs + Z.of_nat Jacobian_kNumParameters))
    as [InL | OutL];
    [apply Distance_written_cells;
       [by apply Distance_keeps_buffer | by apply Distance_keeps_buffer
       | by right; left] |].
  destruct (decide (J_rhs ≠ nullptr
                    ∧ J_rhs <= a < J_rhs + Z.of_nat Jacobian_kNumParameters))
    as [InR | OutR];
    [apply Distance_written_cells;
       [by apply Distance_keeps_buffer | by apply Distance_keeps_buffer
       | by right; right] |].
  apply Distance_frame; [assumption | tauto | tauto].
Qed.

(** X9.  Called without Jacobians, the instance entry point that returns
    the tangent by value returns [log(lhs ∘ inverse(rhs))] under the default
    convention, whatever flags the instance was constructed with, issues
    three calls without a derivative destination, and changes no memory
    outside its automatic variable. *)
Theorem distance_ref_without_jacobians (this : ManifoldMetric) lhs rhs local s :
  let r := distance_ref this lhs rhs nullptr nullptr local s in
  r.1 = spec_tangent default_global default_coupled
          (load Input_kNumParameters (mem s) lhs)
          (load Input_kNumParameters (mem s) rhs)
  ∧ calls r.2 = calls s ++ [CallInv false default_global default_coupled;
                            CallPlus false false default_global default_coupled;
                            CallLog false default_global default_coupled]
  ∧ (∀ a, ¬ (local <= a < local + Z.of_nat Output_kNumParameters) →
          mem r.2 a = mem s a).
Proof.
  intros r. subst r. unfold distance_ref.
  rewrite Distance_ref_unfold. cbn [fst snd]. unfold exec.
  rewrite Distance_neither by apply is_set_nullptr. cbn [snd mem calls].
  split; [by rewrite load_store | split; [reflexivity |]].
  intros a Ha. apply store_outside. lia.
Qed.

End Metric.

(** ** The claims on concrete buffers

    The metric run on the exact instance of the primitives, with the default
    convention [global = true], [coupled = false]. *)

Local Abbreviation model_Distance :=
  (@Distance Z true false IntegerModel.product
     IntegerModel.inverse IntegerModel.inverse_jacobian
     IntegerModel.compose IntegerModel.compose_jacobian_this
     IntegerModel.compose_jacobian_other
     IntegerModel.logarithm IntegerModel.logarithm_jacobian).

Local Abbreviation model_Distance_ref :=
  (@Distance_ref Z true false IntegerModel.product
     IntegerModel.inverse IntegerModel.inverse_jacobian
     IntegerModel.compose IntegerModel.compose_jacobian_this
     IntegerModel.compose_jacobian_other
     IntegerModel.logarithm IntegerModel.logarithm_jacobian).

Local Abbreviation model_state lhs rhs :=
  (@Build_State Z (IntegerModel.buffers lhs rhs) []).

Local Abbreviation lhs_at := IntegerModel.lhs_at.
Local Abbreviation rhs_at := IntegerModel.rhs_at.
Local Abbreviation output_at := IntegerModel.output_at.
Local Abbreviation J_lhs_at := IntegerModel.J_lhs_at.
Local Abbreviation J_rhs_at := IntegerModel.J_rhs_at.
Local Abbreviation local_at := IntegerModel.local_at.

(** The two half turns as [lhs] and [rhs], under [global = false],
    [coupled = true]. *)
Local Abbreviation model_run J_lhs J_rhs :=
  (exec (model_Distance lhs_at rhs_at output_at J_lhs J_rhs false true)
     (model_state IntegerModel.turned IntegerModel.turned_near)).

Lemma model_buffers_kept : tangent_kept output_at J_lhs_at J_rhs_at.
Proof. split; intros _; left; vm_compute; discriminate. Defined.

Lemma model_local_kept : tangent_kept local_at J_lhs_at J_rhs_at.
Proof. split; intros _; right; vm_compute; discriminate. Defined.

Lemma unit_component (x r : Z) : 0 <= r → x * x + r = 1 → x = -1 ∨ x = 0 ∨ x = 1.
Proof. intros Hr H. assert (-1 <= x <= 1) by nia. lia. Qed.

(** On the instance the inverse cancels every pose with a unit rotation. *)
Lemma model_inverse_cancels (p : Input Z) :
  IntegerModel.unit_rotation p →
  inverse_cancels IntegerModel.inverse IntegerModel.compose
    IntegerModel.identity p.
Proof.
  unfold Input, Input_kNumParameters in p. revert p.
  intros p. inv_vec p. intros x y z w a b d H g c.
  unfold IntegerModel.unit_rotation in H. cbn in H.
  unfold IntegerModel.compose, IntegerModel.inverse, IntegerModel.identity,
    IntegerModel.translated, IntegerModel.pose, IntegerModel.rotate. cbn.
  assert (x = -1 ∨ x = 0 ∨ x = 1) as Hx
    by (apply (unit_component x (y * y + z * z + w * w)); nia).
  assert (y = -1 ∨ y = 0 ∨ y = 1) as Hy
    by (apply (unit_component y (x * x + z * z + w * w)); nia).
  assert (z = -1 ∨ z = 0 ∨ z = 1) as Hz
    by (apply (unit_component z (x * x + y * y + w * w)); nia).
  assert (w = -1 ∨ w = 0 ∨ w = 1) as Hw
    by (apply (unit_component w (x * x + y * y + z * z)); nia).
  destruct Hx as [-> | [-> | ->]], Hy as [-> | [-> | ->]],
    Hz as [-> | [-> | ->]], Hw as [-> | [-> | ->]];
    try discriminate H; repeat f_equal; ring.
Qed.

(** With both Jacobians requested, the two half turns differ by the
    translation [(2, -2, 5)] and no rotation. *)
Lemma Distance_tangent_is_log_of_difference_witness :
  tangent_kept output_at J_lhs_at J_rhs_at
  ∧ load Output_kNumParameters (mem (model_run J_lhs_at J_rhs_at)) output_at
    = IntegerModel.tangent 0 0 0 2 (-2) 5.
Proof.
  split; [exact model_buffers_kept |].
  destruct (Distance_tangent_is_log_of_difference true false
              IntegerModel.product
              IntegerModel.inverse IntegerModel.inverse_jacobian
              IntegerModel.compose IntegerModel.compose_jacobian_this
              IntegerModel.compose_jacobian_other
              IntegerModel.logarithm IntegerModel.logarithm_jacobian
              lhs_at rhs_at output_at J_lhs_at J_rhs_at false true
              (model_state IntegerModel.turned IntegerModel.turned_near)
              model_buffers_kept) as [E _].
  rewrite E. vm_compute. reflexivity.
Defined.

(** The metric on the instance whose logarithm depends on [coupled], with
    the half turn as [lhs] and the unit translation as [rhs]. *)
Local Abbreviation coupled_Distance :=
  (@Distance Z true false IntegerModel.product
     IntegerModel.inverse IntegerModel.inverse_jacobian
     IntegerModel.compose IntegerModel.compose_jacobian_this
     IntegerModel.compose_jacobian_other
     IntegerModel.coupled_logarithm IntegerModel.logarithm_jacobian).

Local Abbreviation coupled_run J_lhs J_rhs global coupled :=
  (exec (coupled_Distance lhs_at rhs_at output_at J_lhs J_rhs global coupled)
     (model_state IntegerModel.turned (IntegerModel.translated 1 0 0))).



(** Only [J_lhs] requested: the product is [17 · 10] on the diagonal. *)
Lemma Distance_J_lhs_only_witness :
  J_lhs_at ≠ nullptr
  ∧ calls (model_run J_lhs_at nullptr) =
      [CallInv false false true; CallPlus true false false true;
       CallLog true false true]
  ∧ load Jacobian_kNumParameters (mem (model_run J_lhs_at nullptr)) J_lhs_at =
      IntegerModel.diagonal 170.
Proof.
  assert (J_lhs_at ≠ nullptr) as HL by discriminate.
  split; [exact HL |].
  destruct (Distance_J_lhs_only true false IntegerModel.product
              IntegerModel.inverse IntegerModel.inverse_jacobian
              IntegerModel.compose IntegerModel.compose_jacobian_this
              IntegerModel.compose_jacobian_other
              IntegerModel.logarithm IntegerModel.logarithm_jacobian
              lhs_at rhs_at output_at J_lhs_at false true
              (model_state IntegerModel.turned IntegerModel.turned_near)
              HL) as [Ecalls EJ].
  split.
  - exact Ecalls.
  - rewrite EJ. vm_compute. reflexivity.
Defined.

(** Only [J_rhs] requested: the product is [17 · (12 · (-4))] on the
    diagonal. *)
Lemma Distance_J_rhs_only_witness :
  J_rhs_at ≠ nullptr
  ∧ calls (model_run nullptr J_rhs_at) =
      [CallInv true false true; CallPlus false true false true;
       CallLog true false true]
  ∧ load Jacobian_kNumParameters (mem (model_run nullptr J_rhs_at)) J_rhs_at =
      IntegerModel.diagonal (-816).
Proof.
  assert (J_rhs_at ≠ nullptr) as HR by discriminate.
  split; [exact HR |].
  destruct (Distance_J_rhs_only true false IntegerModel.product
              IntegerModel.inverse IntegerModel.inverse_jacobian
              IntegerModel.compose IntegerModel.compose_jacobian_this
              IntegerModel.compose_jacobian_other
              IntegerModel.logarithm IntegerModel.logarithm_jacobian
              lhs_at rhs_at output_at J_rhs_at false true
              (model_state IntegerModel.turned IntegerModel.turned_near)
              HR) as [Ecalls EJ].
  split.
  - exact Ecalls.
  - rewrite EJ. vm_compute. reflexivity.
Defined.

(** The half turn against itself, with [J_lhs] requested. *)
Lemma Distance_of_a_pose_with_itself_witness :
  (inverse_cancels IntegerModel.inverse IntegerModel.compose
     IntegerModel.identity IntegerModel.turned
   ∧ log_of_identity IntegerModel.logarithm IntegerModel.identity 0
   ∧ load Input_kNumParameters
       (IntegerModel.buffers IntegerModel.turned IntegerModel.turned) lhs_at
     = IntegerModel.turned
   ∧ load Input_kNumParameters
       (IntegerModel.buffers IntegerModel.turned IntegerModel.turned) rhs_at
     = IntegerModel.turned
   ∧ tangent_kept output_at J_lhs_at nullptr)
  ∧ load Output_kNumParameters
      (mem (exec (model_Distance lhs_at rhs_at output_at J_lhs_at nullptr
                    false true)
              (model_state IntegerModel.turned IntegerModel.turned)))
      output_at
    = IntegerModel.tangent 0 0 0 0 0 0.
Proof.
  assert (inverse_cancels IntegerModel.inverse IntegerModel.compose
            IntegerModel.identity IntegerModel.turned) as Hcancel
    by (intros g c; vm_compute; reflexivity).
  assert (log_of_identity IntegerModel.logarithm IntegerModel.identity 0) as Hlog
    by (intros g c; vm_compute; reflexivity).
  assert (load Input_kNumParameters
            (IntegerModel.buffers IntegerModel.turned IntegerModel.turned) lhs_at
          = IntegerModel.turned) as Hlhs by (vm_compute; reflexivity).
  assert (load Input_kNumParameters
            (IntegerModel.buffers IntegerModel.turned IntegerModel.turned) rhs_at
          = IntegerModel.turned) as Hrhs by (vm_compute; reflexivity).
  assert (tangent_kept output_at J_lhs_at nullptr) as Hkept
    by (split; [intros _; left; vm_compute; discriminate
               | intros H; by destruct H]).
  split; [exact (conj Hcancel (conj Hlog (conj Hlhs (conj Hrhs Hkept)))) |].
  exact (Distance_of_a_pose_with_itself true false IntegerModel.product
           IntegerModel.inverse IntegerModel.inverse_jacobian
           IntegerModel.compose IntegerModel.compose_jacobian_this
           IntegerModel.compose_jacobian_other
           IntegerModel.logarithm IntegerModel.logarithm_jacobian
           lhs_at rhs_at output_at J_lhs_at nullptr false true
           (model_state IntegerModel.turned IntegerModel.turned)
           IntegerModel.turned IntegerModel.identity 0
           Hcancel Hlog Hlhs Hrhs Hkept).
Defined.

(** The concrete scenario: the identity pose against the pose translated by
    [(1, 0, 0)], with no Jacobian requested, for [coupled = true] and for
    [coupled = false]. *)
Lemma Distance_of_identity_and_unit_translation_witness :
  (translations_behave IntegerModel.inverse IntegerModel.compose
     IntegerModel.logarithm 0 1 (-1)
     IntegerModel.translated IntegerModel.displacement
   ∧ load Input_kNumParameters
       (IntegerModel.buffers IntegerModel.identity (IntegerModel.translated 1 0 0))
       lhs_at
     = IntegerModel.translated 0 0 0
   ∧ load Input_kNumParameters
       (IntegerModel.buffers IntegerModel.identity (IntegerModel.translated 1 0 0))
       rhs_at
     = IntegerModel.translated 1 0 0
   ∧ tangent_kept output_at nullptr nullptr)
  ∧ load Output_kNumParameters
      (mem (exec (model_Distance lhs_at rhs_at output_at nullptr nullptr
                    true true)
              (model_state IntegerModel.identity
                 (IntegerModel.translated 1 0 0))))
      output_at
    = IntegerModel.tangent 0 0 0 (-1) 0 0
  ∧ load Output_kNumParameters
      (mem (exec (model_Distance lhs_at rhs_at output_at nullptr nullptr
                    true false)
              (model_state IntegerModel.identity
                 (IntegerModel.translated 1 0 0))))
      output_at
    = IntegerModel.tangent 0 0 0 (-1) 0 0.
Proof.
  assert (translations_behave IntegerModel.inverse IntegerModel.compose
            IntegerModel.logarithm 0 1 (-1)
            IntegerModel.translated IntegerModel.displacement) as Hlaws
    by (split; [| split]; intros g c; vm_compute; reflexivity).
  assert (load Input_kNumParameters
            (IntegerModel.buffers IntegerModel.identity
               (IntegerModel.translated 1 0 0)) lhs_at
          = IntegerModel.translated 0 0 0) as Hlhs by (vm_compute; reflexivity).
  assert (load Input_kNumParameters
            (IntegerModel.buffers IntegerModel.identity
               (IntegerModel.translated 1 0 0)) rhs_at
          = IntegerModel.translated 1 0 0) as Hrhs by (vm_compute; reflexivity).
  assert (tangent_kept output_at nullptr nullptr) as Hkept
    by (split; intros H; by destruct H).
  split; [exact (conj Hlaws (conj Hlhs (conj Hrhs Hkept))) |].
  split.
  - exact (Distance_of_identity_and_unit_translation true false
             IntegerModel.product
             IntegerModel.inverse IntegerModel.inverse_jacobian
             IntegerModel.compose IntegerModel.compose_jacobian_this
             IntegerModel.compose_jacobian_other
             IntegerModel.logarithm IntegerModel.logarithm_jacobian
             lhs_at rhs_at output_at nullptr nullptr true true
             (model_state IntegerModel.identity (IntegerModel.translated 1 0 0))
             0 1 (-1) IntegerModel.translated IntegerModel.displacement
             Hlaws Hlhs Hrhs Hkept).
  - exact (Distance_of_identity_and_unit_translation true false
             IntegerModel.product
             IntegerModel.inverse IntegerModel.inverse_jacobian
             IntegerModel.compose IntegerModel.compose_jacobian_this
             IntegerModel.compose_jacobian_other
             IntegerModel.logarithm IntegerModel.logarithm_jacobian
             lhs_at rhs_at output_at nullptr nullptr true false
             (model_state IntegerModel.identity (IntegerModel.translated 1 0 0))
             0 1 (-1) IntegerModel.translated IntegerModel.displacement
             Hlaws Hlhs Hrhs Hkept).
Defined.

(** Both entry points on the two half turns, both Jacobians requested. *)
Lemma Distance_ref_agrees_with_raw_witness :
  (tangent_kept output_at J_lhs_at J_rhs_at
   ∧ tangent_kept local_at J_lhs_at J_rhs_at)
  ∧ (model_Distance_ref lhs_at rhs_at J_lhs_at J_rhs_at false true local_at
       (model_state IntegerModel.turned IntegerModel.turned_near)).1
    = load Output_kNumParameters (mem (model_run J_lhs_at J_rhs_at)) output_at.
Proof.
  split; [exact (conj model_buffers_kept model_local_kept) |].
  exact (proj1
           (Distance_ref_agrees_with_raw true false IntegerModel.product
              IntegerModel.inverse IntegerModel.inverse_jacobian
              IntegerModel.compose IntegerModel.compose_jacobian_this
              IntegerModel.compose_jacobian_other
              IntegerModel.logarithm IntegerModel.logarithm_jacobian
              lhs_at rhs_at output_at J_lhs_at J_rhs_at false true
              (model_state IntegerModel.turned IntegerModel.turned_near)
              local_at model_buffers_kept model_local_kept)).
Defined.

(** Why the output buffer has to stay clear of the Jacobian buffers: with
    [J_lhs] pointing at the output buffer, the Jacobian written second
    replaces the tangent. *)
Example overlapping_J_lhs_replaces_tangent :
  load Output_kNumParameters
    (mem (exec (model_Distance lhs_at rhs_at output_at output_at nullptr
                  false true)
            (model_state IntegerModel.turned IntegerModel.turned_near)))
    output_at
  = IntegerModel.tangent 170 0 0 0 0 0.
Proof. vm_compute. reflexivity. Qed.

(** ** The further properties on concrete buffers *)

Local Abbreviation model_distance :=
  (@distance Z true false IntegerModel.product
     IntegerModel.inverse IntegerModel.inverse_jacobian
     IntegerModel.compose IntegerModel.compose_jacobian_this
     IntegerModel.compose_jacobian_other
     IntegerModel.logarithm IntegerModel.logarithm_jacobian).

Lemma model_jacobians_apart :
  separated J_lhs_at Jacobian_kNumParameters J_rhs_at Jacobian_kNumParameters.
Proof. left; vm_compute; discriminate. Defined.

Lemma model_poses_kept :
  poses_kept lhs_at rhs_at output_at J_lhs_at J_rhs_at.
Proof.
  intros q [-> | ->]; repeat split; intros; left; vm_compute; discriminate.
Defined.

(** Both Jacobians of the two half turns: [17 · 10] and [17 · (12 · (-4))]
    on the diagonal. *)
Lemma Distance_both_jacobians_witness :
  (J_lhs_at ≠ nullptr ∧ J_rhs_at ≠ nullptr
   ∧ separated J_lhs_at Jacobian_kNumParameters J_rhs_at Jacobian_kNumParameters)
  ∧ load Jacobian_kNumParameters (mem (model_run J_lhs_at J_rhs_at)) J_lhs_at =
      IntegerModel.diagonal 170
  ∧ load Jacobian_kNumParameters (mem (model_run J_lhs_at J_rhs_at)) J_rhs_at =
      IntegerModel.diagonal (-816).
Proof.
  assert (J_lhs_at ≠ nullptr) as HL by discriminate.
  assert (J_rhs_at ≠ nullptr) as HR by discriminate.
  split; [exact (conj HL (conj HR model_jacobians_apart)) |].
  destruct (Distance_both_jacobians true false IntegerModel.product
              IntegerModel.inverse IntegerModel.inverse_jacobian
              IntegerModel.compose IntegerModel.compose_jacobian_this
              IntegerModel.compose_jacobian_other
              IntegerModel.logarithm IntegerModel.logarithm_jacobian
              lhs_at rhs_at output_at J_lhs_at J_rhs_at false true
              (model_state IntegerModel.turned IntegerModel.turned_near)
              HL HR model_jacobians_apart) as (_ & EL & ER).
  split.
  - rewrite EL. vm_compute. reflexivity.
  - rewrite ER. vm_compute. reflexivity.
Defined.

(** The first translation scalar of the [lhs] pose is left alone. *)
Lemma Distance_writes_only_its_buffers_witness :
  ¬ written_by output_at J_lhs_at J_rhs_at (lhs_at + 4)
  ∧ mem (model_run J_lhs_at J_rhs_at) (lhs_at + 4) = 3.
Proof.
  assert (¬ written_by output_at J_lhs_at J_rhs_at (lhs_at + 4)) as Ha
    by (unfold written_by; vm_compute; intuition discriminate).
  split; [exact Ha |].
  rewrite (Distance_writes_only_its_buffers true false IntegerModel.product
             IntegerModel.inverse IntegerModel.inverse_jacobian
             IntegerModel.compose IntegerModel.compose_jacobian_this
             IntegerModel.compose_jacobian_other
             IntegerModel.logarithm IntegerModel.logarithm_jacobian
             lhs_at rhs_at output_at J_lhs_at J_rhs_at false true
             (model_state IntegerModel.turned IntegerModel.turned_near)
             (lhs_at + 4) Ha).
  vm_compute. reflexivity.
Defined.

(** One buffer for both Jacobians holds the one with respect to [rhs]. *)
Lemma Distance_shared_jacobian_buffer_witness :
  J_lhs_at ≠ nullptr
  ∧ load Jacobian_kNumParameters (mem (model_run J_lhs_at J_lhs_at)) J_lhs_at =
      IntegerModel.diagonal (-816).
Proof.
  assert (J_lhs_at ≠ nullptr) as HJ by discriminate.
  split; [exact HJ |].
  rewrite (Distance_shared_jacobian_buffer true false IntegerModel.product
             IntegerModel.inverse IntegerModel.inverse_jacobian
             IntegerModel.compose IntegerModel.compose_jacobian_this
             IntegerModel.compose_jacobian_other
             IntegerModel.logarithm IntegerModel.logarithm_jacobian
             lhs_at rhs_at output_at J_lhs_at false true
             (model_state IntegerModel.turned IntegerModel.turned_near) HJ).
  vm_compute. reflexivity.
Defined.

(** The default instance with both Jacobians and with none. *)
Lemma default_metric_tangent_is_path_independent_witness :
  (tangent_kept output_at J_lhs_at J_rhs_at
   ∧ tangent_kept output_at nullptr nullptr)
  ∧ load Output_kNumParameters
      (mem (exec (model_distance (ManifoldMetric_default true false)
                    lhs_at rhs_at output_at J_lhs_at J_rhs_at)
              (model_state IntegerModel.turned IntegerModel.turned_near)))
      output_at =
    load Output_kNumParameters
      (mem (exec (model_distance (ManifoldMetric_default true false)
                    lhs_at rhs_at output_at nullptr nullptr)
              (model_state IntegerModel.turned IntegerModel.turned_near)))
      output_at.
Proof.
  assert (tangent_kept output_at nullptr nullptr) as Hnone
    by (split; intros H; by destruct H).
  split; [exact (conj model_buffers_kept Hnone) |].
  exact (default_metric_tangent_is_path_independent true false
           IntegerModel.product
           IntegerModel.inverse IntegerModel.inverse_jacobian
           IntegerModel.compose IntegerModel.compose_jacobian_this
           IntegerModel.compose_jacobian_other
           IntegerModel.logarithm IntegerModel.logarithm_jacobian
           lhs_at rhs_at output_at J_lhs_at J_rhs_at nullptr nullptr
           (model_state IntegerModel.turned IntegerModel.turned_near)
           model_buffers_kept Hnone).
Defined.

(** Two memories with the same poses and different contents elsewhere. *)
Lemma Distance_reads_only_the_poses_witness :
  (load kInputSize
     (IntegerModel.buffers IntegerModel.turned IntegerModel.turned_near) lhs_at =
   load kInputSize
     (store local_at (IntegerModel.tangent 7 7 7 7 7 7)
        (IntegerModel.buffers IntegerModel.turned IntegerModel.turned_near))
     lhs_at
   ∧ load kInputSize
       (IntegerModel.buffers IntegerModel.turned IntegerModel.turned_near) rhs_at =
     load kInputSize
       (store local_at (IntegerModel.tangent 7 7 7 7 7 7)
          (IntegerModel.buffers IntegerModel.turned IntegerModel.turned_near))
       rhs_at)
  ∧ load kOutputSize (mem (model_run J_lhs_at J_rhs_at)) output_at =
    load kOutputSize
      (mem (exec (model_Distance lhs_at rhs_at output_at J_lhs_at J_rhs_at
                    false true)
              (@Build_State Z
                 (store local_at (IntegerModel.tangent 7 7 7 7 7 7)
                    (IntegerModel.buffers IntegerModel.turned
                       IntegerModel.turned_near)) [CallLog false true true])))
      output_at.
Proof.
  assert (load kInputSize
            (IntegerModel.buffers IntegerModel.turned IntegerModel.turned_near)
            lhs_at =
          load kInputSize
            (store local_at (IntegerModel.tangent 7 7 7 7 7 7)
               (IntegerModel.buffers IntegerModel.turned
                  IntegerModel.turned_near)) lhs_at) as Hl
    by (vm_compute; reflexivity).
  assert (load kInputSize
            (IntegerModel.buffers IntegerModel.turned IntegerModel.turned_near)
            rhs_at =
          load kInputSize
            (store local_at (IntegerModel.tangent 7 7 7 7 7 7)
               (IntegerModel.buffers IntegerModel.turned
                  IntegerModel.turned_near)) rhs_at) as Hr
    by (vm_compute; reflexivity).
  split; [exact (conj Hl Hr) |].
  exact (proj1
           (Distance_reads_only_the_poses true false IntegerModel.product
              IntegerModel.inverse IntegerModel.inverse_jacobian
              IntegerModel.compose IntegerModel.compose_jacobian_this
              IntegerModel.compose_jacobian_other
              IntegerModel.logarithm IntegerModel.logarithm_jacobian
              lhs_at rhs_at output_at J_lhs_at J_rhs_at false true
              (model_state IntegerModel.turned IntegerModel.turned_near)
              (@Build_State Z
                 (store local_at (IntegerModel.tangent 7 7 7 7 7 7)
                    (IntegerModel.buffers IntegerModel.turned
                       IntegerModel.turned_near)) [CallLog false true true])
              Hl Hr)).
Defined.

(** A second evaluation on the two half turns, read at the first scalar of
    the [J_rhs] buffer. *)
Lemma Distance_twice_is_once_witness :
  poses_kept lhs_at rhs_at output_at J_lhs_at J_rhs_at
  ∧ mem (exec (model_Distance lhs_at rhs_at output_at J_lhs_at J_rhs_at
                 false true) (model_run J_lhs_at J_rhs_at)) J_rhs_at =
    mem (model_run J_lhs_at J_rhs_at) J_rhs_at.
Proof.
  split; [exact model_poses_kept |].
  exact (Distance_twice_is_once true false IntegerModel.product
           IntegerModel.inverse IntegerModel.inverse_jacobian
           IntegerModel.compose IntegerModel.compose_jacobian_this
           IntegerModel.compose_jacobian_other
           IntegerModel.logarithm IntegerModel.logarithm_jacobian
           lhs_at rhs_at output_at J_lhs_at J_rhs_at false true
           (model_state IntegerModel.turned IntegerModel.turned_near)
           J_rhs_at model_poses_kept).
Defined.
